(** * cutiechat: matchmaking queue, signalling relay and client auto-requeue

    A shallow embedding of [server.js] (the Socket.IO matchmaking server) and
    of the synchronous parts of [public/client.js] (the browser side), with
    the properties of the protocol proved over it.

    - [Js]      the JavaScript primitives the code relies on
                ([Array.prototype.findIndex], [splice], string [<], truthiness);
    - [Server]  [waitingUsers], the four socket handlers and the event loop;
    - [Client]  the global variables of the page and its handlers, written in a
                small state-and-effect monad;
    - [World]   one server and the pages connected to it;
    - [Discipline]  the order in which Socket.IO hands events to the server;
    - [Page]    the [signal] handler of the page and the page over a
                sequence of events. *)

From Stdlib Require Import ZArith String Ascii.
From stdpp Require Import base list gmap strings.

Local Open Scope string_scope.
Local Open Scope list_scope.
Local Open Scope Z_scope.

(** ** JavaScript primitives *)

Module Js.

(** [a === b] on two strings. *)
Definition strict_eq (a b : string) : bool := String.eqb a b.

(** [a !== b] on two strings. *)
Definition strict_ne (a b : string) : bool := negb (strict_eq a b).

(** Truthiness of a string: only [''] is falsy. *)
Definition truthy (s : string) : bool := negb (strict_eq s "").

(** Truthiness of a value that is [null]/[undefined] ([None]) or a string. *)
Definition truthy_opt (o : option string) : bool :=
  match o with
  | None => false
  | Some s => truthy s
  end.

(** [a < b] on two strings: the first differing code unit decides, and a
    proper prefix is smaller than the string it is a prefix of. Socket ids
    are ASCII, so a code unit is a byte here. *)
Fixpoint string_lt (a b : string) : bool :=
  match a, b with
  | _, EmptyString => false
  | EmptyString, String _ _ => true
  | String x a', String y b' =>
      if (N_of_ascii x <? N_of_ascii y)%N then true
      else if (N_of_ascii y <? N_of_ascii x)%N then false
      else string_lt a' b'
  end.

Section Arrays.
Context {A : Type}.

(** The scan of [findIndex], started at index [k]. *)
Fixpoint findIndex_from (p : A → bool) (l : list A) (k : Z) : Z :=
  match l with
  | [] => -1
  | x :: l' => if p x then k else findIndex_from p l' (k + 1)
  end.

(** [l.findIndex(p)]: the index of the first element satisfying [p],
    or [-1]. *)
Definition findIndex (p : A → bool) (l : list A) : Z :=
  findIndex_from p l 0.

(** [l.splice(start, deleteCount)]: the deleted elements, and the array
    as it is left. A negative [start] counts from the end; both
    arguments are clamped to the array. *)
Definition splice (start deleteCount : Z) (l : list A) : list A * list A :=
  let len := Z.of_nat (length l) in
  let actualStart :=
    if start <? 0 then Z.max (len + start) 0 else Z.min start len in
  let actualDeleteCount := Z.min (Z.max deleteCount 0) (len - actualStart) in
  let s := Z.to_nat actualStart in
  let d := Z.to_nat actualDeleteCount in
  (take d (drop s l), take s l ++ drop (s + d) l).

(** [l.filter(p)]. *)
Definition filter (p : A → bool) (l : list A) : list A := List.filter p l.

(** [l.push(x)]. *)
Definition push (x : A) (l : list A) : list A := l ++ [x].
End Arrays.

End Js.

(** ** The server *)

Module Server.

(** An element of [waitingUsers]: [{ id, username, country }]. *)
Record user := User { id : string; username : string; country : string }.

(** The payload of [start-matching]. *)
Record user_data := UserData { ud_username : string; ud_country : string }.

(** The payload of an inbound [signal]. *)
Record signal_data :=
  SignalData { target : string; type : string; payload : string }.

(** What the server sends. *)
Inductive server_msg :=
| match_found (partnerId partnerUsername partnerCountry : string)
| waiting_in_queue
| signal (sender type payload : string)
| partner_dropped.

(** One [emit]: the socket (or room) addressed and the message. *)
Record emission := Emit { to : string; msg : server_msg }.

(** [waitingUsers] and [io.sockets.sockets] (the connected sockets). *)
Record state := State { waitingUsers : list user; sockets : gset string }.

Definition init : state := State [] ∅.

(** [waitingUsers.filter(user => user.id !== socket.id)]. *)
Definition remove (sid : string) (q : list user) : list user :=
  Js.filter (λ u, Js.strict_ne (id u) sid) q.

(** Lines 35-55 of the [start-matching] handler: worldwide first, then
    local; the partner found is spliced out of the queue. *)
Definition find_and_remove_partner (c : string) (q : list user)
  : option user * list user :=
  let worldwidePartnerIndex := Js.findIndex (λ u, Js.strict_ne (country u) c) q in
  if negb (worldwidePartnerIndex =? -1) then
    let '(deleted, q') := Js.splice worldwidePartnerIndex 1 q in
    (head deleted, q')
  else
    let localPartnerIndex := Js.findIndex (λ u, Js.strict_eq (country u) c) q in
    if negb (localPartnerIndex =? -1) then
      let '(deleted, q') := Js.splice localPartnerIndex 1 q in
      (head deleted, q')
    else (None, q).

(** [socket.on('start-matching', ...)]. *)
Definition start_matching (sid : string) (userData : user_data) (st : state)
  : state * list emission :=
  let username := ud_username userData in
  let country := ud_country userData in
  let q := remove sid (waitingUsers st) in
  let '(partnerUser, q) := find_and_remove_partner country q in
  match partnerUser with
  | Some partnerUser =>
      if bool_decide (id partnerUser ∈ sockets st) then
        (State q (sockets st),
         [ Emit sid (match_found (id partnerUser) (Server.username partnerUser)
                       (Server.country partnerUser));
           Emit (id partnerUser) (match_found sid username country) ])
      else
        (State (Js.push (User sid username country) q) (sockets st),
         [ Emit sid waiting_in_queue ])
  | None =>
      (State (Js.push (User sid username country) q) (sockets st),
       [ Emit sid waiting_in_queue ])
  end.

(** [socket.on('signal', ...)]. *)
Definition on_signal (sid : string) (data : signal_data) (st : state)
  : state * list emission :=
  (st, [ Emit (target data) (signal sid (type data) (payload data)) ]).

(** [socket.on('user-hangup', ...)]; [partnerId] may be [null]. *)
Definition user_hangup (sid : string) (partnerId : option string) (st : state)
  : state * list emission :=
  let out :=
    match partnerId with
    | Some p => if Js.truthy p then [ Emit p partner_dropped ] else []
    | None => []
    end in
  (State (remove sid (waitingUsers st)) (sockets st), out).

(** [io.on('connection', ...)]: the socket enters [io.sockets.sockets]. *)
Definition connection (sid : string) (st : state) : state * list emission :=
  (State (waitingUsers st) ({[ sid ]} ∪ sockets st), []).

(** [socket.on('disconnect', ...)]: the socket has left
    [io.sockets.sockets]; only the queue is cleaned. *)
Definition disconnect (sid : string) (st : state) : state * list emission :=
  (State (remove sid (waitingUsers st)) (sockets st ∖ {[ sid ]}), []).

(** The events a server processes, one at a time. *)
Inductive event :=
| ev_connection (sid : string)
| ev_start_matching (sid : string) (userData : user_data)
| ev_signal (sid : string) (data : signal_data)
| ev_user_hangup (sid : string) (partnerId : option string)
| ev_disconnect (sid : string).

Definition step (e : event) (st : state) : state * list emission :=
  match e with
  | ev_connection sid => connection sid st
  | ev_start_matching sid d => start_matching sid d st
  | ev_signal sid d => on_signal sid d st
  | ev_user_hangup sid p => user_hangup sid p st
  | ev_disconnect sid => disconnect sid st
  end.

(** The server run over a sequence of events, with all it emitted. *)
Fixpoint run (es : list event) (st : state) : state * list emission :=
  match es with
  | [] => (st, [])
  | e :: es' =>
      let '(st1, out1) := step e st in
      let '(st2, out2) := run es' st1 in
      (st2, out1 ++ out2)
  end.

(** A message is delivered when the socket addressed is connected. *)
Definition delivered (st : state) (out : list emission) : list emission :=
  List.filter (λ e, bool_decide (to e ∈ sockets st)) out.

(** The states a server started from [init] goes through. *)
Inductive reachable : state → Prop :=
| reachable_init : reachable init
| reachable_step e st : reachable st → reachable (step e st).1.

(** At most one entry per socket id. *)
Definition queue_inv (st : state) : Prop := NoDup (id <$> waitingUsers st).

(** The entries of socket [sid] in a queue. *)
Definition entries_of (sid : string) (q : list user) : list user :=
  Js.filter (λ u, Js.strict_eq (id u) sid) q.

End Server.

(** ** The page *)

Module Client.

(** [localUserData] and the payload of [start-matching] are one object. *)
Abbreviation user_data := Server.user_data.
Abbreviation username := Server.ud_username.
Abbreviation country := Server.ud_country.

(** What the page sends. [target] is [partnerId] as it is when the message
    leaves, which may be [null]. *)
Inductive client_msg :=
| start_matching (userData : user_data)
| signal (target : option string) (type payload : string)
| user_hangup (partnerId : option string).

Inductive element :=
| lobbyView | videoChatView | waitingMessage | statusMessage
| localVideo | remoteVideo | localInfo | remoteInfo | remoteVideoContainer.

(** What a handler does to the outside: the socket, the document, the
    media tracks and the peer connection of the browser. *)
Inductive effect :=
| emit (m : client_msg)
| classList_add (e : element) (c : string)
| classList_remove (e : element) (c : string)
| textContent (e : element) (s : string)
| srcObject (e : element) (stream : bool)
| play (e : element)
| style (e : element) (property value : string)
| alert (s : string)
| getUserMedia
| tracks_stop
| pc_close
| pc_new
| pc_addTracks
| pc_createOffer.

(** An [RTCPeerConnection]; [tracks] tells whether the local tracks were
    added to it. *)
Record peer_connection := PeerConnection { tracks : bool }.

(** The global variables of the page. [localStream] is [true] once the
    camera was acquired; [null] is [None]. *)
Record client := Client {
  socket_id : string;
  localStream : bool;
  peerConnection : option peer_connection;
  partnerId : option string;
  localUserData : user_data
}.

(** The page as it is loaded. *)
Definition init (sid : string) : client :=
  Client sid false None None (Server.UserData "" "").

(** Handlers read and write the globals and act on the outside, in order. *)
Definition M (A : Type) : Type := client → A * client * list effect.

#[export] Instance M_ret : MRet M := λ A a c, (a, c, []).
#[export] Instance M_bind : MBind M := λ A B k m c,
  let '(a, c1, o1) := m c in
  let '(b, c2, o2) := k a c1 in
  (b, c2, o1 ++ o2).

Definition get : M client := λ c, (c, c, []).
Definition tell (e : effect) : M unit := λ c, (tt, c, [e]).
Definition when (b : bool) (m : M unit) : M unit := if b then m else mret tt.

Definition set_localStream (v : bool) : M unit := λ c,
  (tt, Client (socket_id c) v (peerConnection c) (partnerId c) (localUserData c), []).
Definition set_peerConnection (v : option peer_connection) : M unit := λ c,
  (tt, Client (socket_id c) (localStream c) v (partnerId c) (localUserData c), []).
Definition set_partnerId (v : option string) : M unit := λ c,
  (tt, Client (socket_id c) (localStream c) (peerConnection c) v (localUserData c), []).
Definition set_localUserData (v : user_data) : M unit := λ c,
  (tt, Client (socket_id c) (localStream c) (peerConnection c) (partnerId c) v, []).

(** The globals and the effects a handler leaves. *)
Definition exec (m : M unit) (c : client) : client * list effect :=
  let '(_, c', out) := m c in (c', out).

(** What a list of effects sends over the socket. *)
Definition emitted (out : list effect) : list client_msg :=
  omap (λ e, match e with emit m => Some m | _ => None end) out.

(** [startLocalMediaView()]. *)
Definition startLocalMediaView : M unit :=
  c ← get;
  when (localStream c) (
    tell (srcObject localVideo true);;
    tell (play localVideo);;
    tell (textContent localInfo
            (username (localUserData c) +:+ " (" +:+ country (localUserData c) +:+ ")"));;
    tell (classList_add lobbyView "hidden");;
    tell (classList_remove videoChatView "hidden");;
    tell (classList_remove waitingMessage "hidden");;
    tell (style remoteVideoContainer "visibility" "hidden");;
    tell (style remoteVideoContainer "opacity" "0");;
    tell (textContent remoteInfo "Awaiting partner...")).

(** [createOffer()], up to its first [await]. *)
Definition createOffer : M unit := tell pc_createOffer.

(** [createPeerConnection(isInitiator)]. *)
Definition createPeerConnection (isInitiator : bool) : M unit :=
  c ← get;
  when (bool_decide (is_Some (peerConnection c))) (tell pc_close);;
  tell pc_new;;
  set_peerConnection (Some (PeerConnection (localStream c)));;
  when (localStream c) (tell pc_addTracks);;
  when isInitiator createOffer.

(** [clearConnectionState()]. *)
Definition clearConnectionState : M unit :=
  c ← get;
  when (bool_decide (is_Some (peerConnection c))) (
    tell pc_close;;
    set_peerConnection None);;
  tell (srcObject remoteVideo false);;
  tell (textContent remoteInfo "");;
  set_partnerId None;;
  tell (style remoteVideoContainer "visibility" "hidden");;
  tell (style remoteVideoContainer "opacity" "0").

(** [handleHangUp(isAutomatic)]. *)
Definition handleHangUp (isAutomatic : bool) : M unit :=
  c ← get;
  when (Js.truthy_opt (partnerId c)) (tell (emit (user_hangup (partnerId c))));;
  clearConnectionState;;
  c ← get;
  when (negb isAutomatic && localStream c) (
    tell tracks_stop;;
    set_localStream false;;
    tell (srcObject localVideo false);;
    tell (textContent localInfo ""));;
  tell (classList_remove lobbyView "hidden");;
  tell (classList_add videoChatView "hidden");;
  tell (classList_add waitingMessage "hidden");;
  tell (textContent statusMessage "Disconnected. Join the lobby to find a new chat.");;
  tell (classList_remove statusMessage "text-green-600");;
  tell (classList_add statusMessage "text-blue-600").

(** [requeueForMatch()]. *)
Definition requeueForMatch : M unit :=
  startLocalMediaView;;
  tell (textContent statusMessage
          "Partner dropped. Automatically searching for a new International match...");;
  tell (classList_remove statusMessage "text-green-600");;
  tell (classList_add statusMessage "text-blue-600");;
  c ← get;
  if Js.truthy (username (localUserData c)) && Js.truthy (country (localUserData c))
  then tell (emit (start_matching (localUserData c)))
  else handleHangUp false.

(** The negotiation role: the smaller socket id makes the offer. *)
Definition isInitiator (socket_id partnerId : string) : bool :=
  Js.string_lt socket_id partnerId.

(** [socket.on('match-found', ...)]. *)
Definition on_match_found (partnerId partnerUsername partnerCountry : string)
  : M unit :=
  set_partnerId (Some partnerId);;
  tell (classList_add waitingMessage "hidden");;
  tell (textContent statusMessage "Match found! Setting up video...");;
  tell (textContent remoteInfo (partnerUsername +:+ " (" +:+ partnerCountry +:+ ")"));;
  c ← get;
  createPeerConnection (isInitiator (socket_id c) partnerId).

(** [socket.on('waiting-in-queue', ...)]. *)
Definition on_waiting_in_queue : M unit :=
  tell (classList_remove waitingMessage "hidden");;
  tell (textContent statusMessage
          "Searching for a partner... Worldwide priority first!").

(** [socket.on('partner-dropped', ...)]. *)
Definition on_partner_dropped : M unit :=
  clearConnectionState;;
  requeueForMatch.

(** The click on [hangupButton]. *)
Definition on_hangup_click : M unit :=
  c ← get;
  when (Js.truthy_opt (partnerId c)) (tell (emit (user_hangup (partnerId c))));;
  clearConnectionState;;
  requeueForMatch.

(** [peerConnection.oniceconnectionstatechange], with the state read. *)
Definition on_iceconnectionstatechange (state : string) : M unit :=
  when (Js.strict_eq state "disconnected" || Js.strict_eq state "failed") (
    c ← get;
    when (Js.truthy_opt (partnerId c)) (tell (emit (user_hangup (partnerId c))));;
    clearConnectionState;;
    requeueForMatch).

(** The submit of [signupForm], up to [await startLocalMedia()]; [name] is
    the name typed, trimmed. *)
Definition on_submit (name country : string) : M unit :=
  set_localUserData (Server.UserData name country);;
  if Js.truthy name && Js.truthy country
  then c ← get; when (negb (localStream c)) (tell getUserMedia)
  else tell (alert "Please enter your Name and select your Country to start.").

(** The submit of [signupForm], from the moment [startLocalMedia()] has
    answered. *)
Definition on_submit_media (mediaStarted : bool) : M unit :=
  if mediaStarted then
    set_localStream true;;
    startLocalMediaView;;
    c ← get;
    tell (emit (start_matching (localUserData c)))
  else
    tell (textContent statusMessage
            "Error: Could not access camera/microphone. Please check permissions.").

(** A message of the server, handled by the page it reaches. The [signal]
    handler runs the negotiation of the browser and is left out. *)
Definition handle (m : Server.server_msg) : M unit :=
  match m with
  | Server.match_found p u c => on_match_found p u c
  | Server.waiting_in_queue => on_waiting_in_queue
  | Server.partner_dropped => on_partner_dropped
  | Server.signal _ _ _ => mret tt
  end.

(** The role a page takes towards its partner, as [on_match_found] decides
    it. *)
Inductive role := initiator | responder.

Definition negotiation_role (socket_id partnerId : string) : role :=
  if isInitiator socket_id partnerId then initiator else responder.

(** The display attributes were supplied: both are truthy. *)
Definition attrs_supplied (c : client) : Prop :=
  Js.truthy (username (localUserData c)) = true ∧
  Js.truthy (country (localUserData c)) = true.

(** The page is in a session: it has a partner and a peer connection. *)
Definition in_session (c : client) : Prop :=
  is_Some (partnerId c) ∧ is_Some (peerConnection c).

End Client.

(** ** One server and its pages *)

Module World.

(** The server and the page behind each connected socket. *)
Record world := World {
  server : Server.state;
  clients : gmap string Client.client
}.

(** The session record of [a] names [b]: the server keeps none, the page
    of [a] holds it in [partnerId]. *)
Definition session (w : world) (a b : string) : Prop :=
  ∃ c, clients w !! a = Some c ∧ Client.partnerId c = Some b.

(** One message reaches the page it is addressed to, if there is one. *)
Definition deliver (cs : gmap string Client.client) (e : Server.emission)
  : gmap string Client.client :=
  match cs !! Server.to e with
  | Some c => <[Server.to e := (Client.exec (Client.handle (Server.msg e)) c).1]> cs
  | None => cs
  end.

(** The server handles an event and the pages handle what it sends. *)
Definition step (e : Server.event) (w : world) : world :=
  let '(st, out) := Server.step e (server w) in
  World st (foldl deliver (clients w) out).

(** The relay rule of a server that would check sessions: whatever it
    relays for socket [sid] reaches the partner that the session of [sid]
    names. *)
Definition relay_gated_by_session : Prop :=
  ∀ w sid data e,
    e ∈ Server.delivered (server w) (Server.on_signal sid data (server w)).2 →
    session w sid (Server.to e).

End World.

(** ** The users of the worked scenarios *)

Module Scenario.
Import Server.

(** A and B, both of region US, and C of region FR. *)
Definition A := User "A1" "Ann" "US".
Definition B := User "B2" "Bob" "US".
Definition C := User "C3" "Cat" "FR".

(** Two pages connected to a server on which nobody has asked for a match. *)
Definition lobby : World.world :=
  World.World (State [] {[ "A1"; "B2" ]})
    {[ "A1" := Client.init "A1"; "B2" := Client.init "B2" ]}.

(** Ann and Bob are connected and have typed their names; Ann waits. *)
Definition ann_waits : World.world :=
  World.World
    (run [ ev_connection "A1"; ev_connection "B2";
           ev_start_matching "A1" (UserData "Ann" "US") ] init).1
    {[ "A1" := Client.Client "A1" true None None (UserData "Ann" "US");
       "B2" := Client.Client "B2" true None None (UserData "Bob" "US") ]}.

(** The page of Ann in a call with Bob, camera on. *)
Definition ann_in_call : Client.client :=
  Client.Client "A1" true (Some (Client.PeerConnection true)) (Some "B2")
    (UserData "Ann" "US").

End Scenario.

(** ** Event discipline of the server *)

Module Discipline.
Import Server.

(** Socket.IO runs the handlers of a socket only while it is connected:
    every event but [connection] comes from a socket in
    [io.sockets.sockets]. *)
Definition wf_event (st : state) (e : event) : bool :=
  match e with
  | ev_connection _ => true
  | ev_start_matching sid _ | ev_signal sid _
  | ev_user_hangup sid _ | ev_disconnect sid => bool_decide (sid ∈ sockets st)
  end.

(** A sequence of events each of which keeps the discipline in the state
    it is handled in. *)
Fixpoint wf_run (es : list event) (st : state) : bool :=
  match es with
  | [] => true
  | e :: es' => wf_event st e && wf_run es' (step e st).1
  end.

(** Every waiting user is connected. *)
Definition queue_connected (st : state) : Prop :=
  ∀ u, u ∈ waitingUsers st → id u ∈ sockets st.

(** The event is a [start-matching] of socket [sid]. *)
Definition asks_for_match (sid : string) (e : event) : bool :=
  match e with
  | ev_start_matching sid' _ => Js.strict_eq sid' sid
  | _ => false
  end.

(** The message is a [match-found] sent to [sid] or naming [sid]. *)
Definition matches (sid : string) (e : emission) : Prop :=
  ∃ other u r,
    e = Emit sid (match_found other u r) ∨ e = Emit other (match_found sid u r).

End Discipline.

(** ** The page over time *)

Module Page.
Import Client.

(** What the [signal] handler of the page goes on to await. *)
Inductive signal_action :=
| skipped
| await_createAnswer (offer : string)
| await_setRemoteDescription (answer : string)
| await_addIceCandidate (candidate : string)
| ignored.

(** [socket.on('signal', ...)] of the page, up to its first [await]. The
    sender the server has tagged the message with is not read. *)
Definition on_signal (type payload : string) : M signal_action :=
  c ← get;
  when (negb (bool_decide (is_Some (peerConnection c)))
        && Js.strict_eq type "sdp-offer")
    (createPeerConnection false);;
  c ← get;
  if negb (bool_decide (is_Some (peerConnection c))) then mret skipped
  else if Js.strict_eq type "sdp-offer" then mret (await_createAnswer payload)
  else if Js.strict_eq type "sdp-answer" then mret (await_setRemoteDescription payload)
  else if Js.strict_eq type "ice-candidate" then
    (if Js.truthy payload then mret (await_addIceCandidate payload) else mret ignored)
  else mret ignored.

(** The end of [createOffer] and of [createAnswer], after their last
    [await]: the local description is sent to [partnerId] as it is then.
    Reading it off a [null] peer connection throws, which the [catch]
    swallows. *)
Definition send_description (type localDescription status : string) : M unit :=
  c ← get;
  when (bool_decide (is_Some (peerConnection c))) (
    tell (emit (signal (partnerId c) type localDescription));;
    tell (textContent statusMessage status)).

Definition createOffer_end (localDescription : string) : M unit :=
  send_description "sdp-offer" localDescription "Offering connection to partner...".

Definition createAnswer_end (localDescription : string) : M unit :=
  send_description "sdp-answer" localDescription "Sending connection response...".

(** [peerConnection.oniceconnectionstatechange] as the browser calls it:
    the state is read off the global [peerConnection], which throws when it
    is [null], and then nothing is done. *)
Definition on_ice (state : string) : M unit :=
  c ← get;
  when (bool_decide (is_Some (peerConnection c))) (on_iceconnectionstatechange state).

(** What happens to a page. *)
Inductive page_event :=
| pe_match_found (partnerId partnerUsername partnerCountry : string)
| pe_waiting_in_queue
| pe_partner_dropped
| pe_signal (type payload : string)
| pe_hangup_click
| pe_iceconnectionstatechange (state : string)
| pe_submit (name country : string)
| pe_submit_media (mediaStarted : bool)
| pe_createOffer_end (localDescription : string)
| pe_createAnswer_end (localDescription : string).

Definition page_step (e : page_event) : M unit :=
  match e with
  | pe_match_found p u r => on_match_found p u r
  | pe_waiting_in_queue => on_waiting_in_queue
  | pe_partner_dropped => on_partner_dropped
  | pe_signal t p => on_signal t p ≫= λ _, mret tt
  | pe_hangup_click => on_hangup_click
  | pe_iceconnectionstatechange s => on_ice s
  | pe_submit n r => on_submit n r
  | pe_submit_media b => on_submit_media b
  | pe_createOffer_end d => createOffer_end d
  | pe_createAnswer_end d => createAnswer_end d
  end.

(** The page handles its events one after the other. *)
Fixpoint page_run (es : list page_event) : M unit :=
  match es with
  | [] => mret tt
  | e :: es' => page_step e;; page_run es'
  end.

(** The peer connections a list of effects has created, and closed. *)
Definition opened (out : list effect) : nat :=
  length (List.filter (λ e, match e with pc_new => true | _ => false end) out).

Definition closed (out : list effect) : nat :=
  length (List.filter (λ e, match e with pc_close => true | _ => false end) out).

(** The peer connections the page holds: one or none. *)
Definition held (c : client) : nat :=
  if bool_decide (is_Some (peerConnection c)) then 1%nat else 0%nat.

End Page.

(** * Properties *)

(** ** Arrays and strings *)

Module JsFacts.
Import Js.

Lemma strict_eq_true a b : strict_eq a b = true ↔ a = b.
Proof. apply String.eqb_eq. Qed.

Lemma strict_ne_true a b : strict_ne a b = true ↔ a ≠ b.
Proof.
  unfold strict_ne, strict_eq. destruct (String.eqb_spec a b); simpl; split; congruence.
Qed.

Lemma strict_ne_false a b : strict_ne a b = false ↔ a = b.
Proof.
  unfold strict_ne, strict_eq. destruct (String.eqb_spec a b); simpl; split; congruence.
Qed.

Section Arrays.
Context {A : Type} (p : A → bool).

(** The scan stops at the first element satisfying [p]. *)
Lemma findIndex_from_found l1 x l2 k :
  Forall (λ y, p y = false) l1 → p x = true →
  findIndex_from p (l1 ++ x :: l2) k = k + Z.of_nat (length l1).
Proof.
  intros Hl1 Hx. revert k.
  induction Hl1 as [|y l1 Hy _ IH]; intros k; simpl.
  - rewrite Hx. lia.
  - rewrite Hy, IH. lia.
Qed.

Lemma findIndex_from_none l k :
  Forall (λ y, p y = false) l → findIndex_from p l k = -1.
Proof.
  intros Hl. revert k. induction Hl as [|y l Hy _ IH]; intros k; simpl; [done|].
  by rewrite Hy.
Qed.

(** Every array either has a first element satisfying [p] or none. *)
Lemma first_split l :
  Forall (λ y, p y = false) l ∨
  ∃ l1 x l2, l = l1 ++ x :: l2 ∧ Forall (λ y, p y = false) l1 ∧ p x = true.
Proof.
  induction l as [|y l IH]; [by left|].
  destruct (p y) eqn:Hy.
  - right. exists [], y, l. by repeat split.
  - destruct IH as [IH | (l1 & x & l2 & -> & Hl1 & Hx)].
    + left. by constructor.
    + right. exists (y :: l1), x, l2. repeat split; [|done]. by constructor.
Qed.

Lemma findIndex_found l1 x l2 :
  Forall (λ y, p y = false) l1 → p x = true →
  findIndex p (l1 ++ x :: l2) = Z.of_nat (length l1).
Proof. intros. unfold findIndex. by rewrite findIndex_from_found. Qed.

Lemma findIndex_none l :
  Forall (λ y, p y = false) l → findIndex p l = -1.
Proof. apply findIndex_from_none. Qed.

(** [splice(i, 1)] at an index of the array takes that element out. *)
Lemma splice_1 (l1 : list A) x l2 :
  splice (Z.of_nat (length l1)) 1 (l1 ++ x :: l2) = ([x], l1 ++ l2).
Proof.
  unfold splice. rewrite length_app. simpl length.
  destruct (Z.ltb_spec (Z.of_nat (length l1)) 0) as [|_]; [lia|].
  replace (Z.min (Z.of_nat (length l1)) (Z.of_nat (length l1 + S (length l2))))
    with (Z.of_nat (length l1)) by lia.
  replace (Z.min (Z.max 1 0)
             (Z.of_nat (length l1 + S (length l2)) - Z.of_nat (length l1)))
    with 1 by lia.
  rewrite Nat2Z.id. change (Z.to_nat 1) with 1%nat.
  rewrite drop_app_length, take_app_length. simpl.
  f_equal. f_equal.
  by rewrite drop_app_add'.
Qed.
End Arrays.

End JsFacts.

(** ** The waiting queue *)

Module QueueFacts.
Import Js JsFacts Server.

Lemma elem_of_js_filter {A} (p : A → bool) l x :
  x ∈ Js.filter p l ↔ x ∈ l ∧ p x = true.
Proof. unfold Js.filter. rewrite !list_elem_of_In. apply filter_In. Qed.

Lemma js_filter_sublist {A} (p : A → bool) l : Js.filter p l `sublist_of` l.
Proof.
  induction l as [|x l IH]; simpl; [constructor|].
  destruct (p x); by constructor.
Qed.

Lemma js_filter_idemp {A} (p : A → bool) l :
  Js.filter p (Js.filter p l) = Js.filter p l.
Proof.
  induction l as [|x l IH]; simpl; [done|].
  destruct (p x) eqn:Hx; simpl; [|done]. rewrite Hx. by f_equal.
Qed.

(** [remove] keeps the entries of the other sockets, in their order. *)
Lemma elem_of_remove sid q u : u ∈ remove sid q ↔ u ∈ q ∧ id u ≠ sid.
Proof. unfold remove. by rewrite elem_of_js_filter, strict_ne_true. Qed.

Lemma remove_sublist sid q : remove sid q `sublist_of` q.
Proof. apply js_filter_sublist. Qed.

Lemma remove_idemp sid q : remove sid (remove sid q) = remove sid q.
Proof. apply js_filter_idemp. Qed.

Lemma not_elem_of_ids_remove sid q : sid ∉ id <$> remove sid q.
Proof.
  intros (u & -> & Hu)%list_elem_of_fmap. by apply elem_of_remove in Hu as [_ ?].
Qed.

(** The three outcomes of the search. *)
Lemma find_worldwide c l1 p l2 :
  Forall (λ u, country u = c) l1 → country p ≠ c →
  find_and_remove_partner c (l1 ++ p :: l2) = (Some p, l1 ++ l2).
Proof.
  intros Hl1 Hp. unfold find_and_remove_partner.
  rewrite findIndex_found.
  - destruct (Z.eqb_spec (Z.of_nat (length l1)) (-1)) as [|_]; [lia|]. cbn [negb].
    by rewrite splice_1.
  - eapply Forall_impl; [exact Hl1|]. intros u Hu. by apply strict_ne_false.
  - by apply strict_ne_true.
Qed.

Lemma find_local c p l :
  Forall (λ u, country u = c) (p :: l) →
  find_and_remove_partner c (p :: l) = (Some p, l).
Proof.
  intros Hl. unfold find_and_remove_partner.
  rewrite findIndex_none.
  - change (negb (-1 =? -1)) with false. cbv iota.
    rewrite (findIndex_found _ [] p l); [|constructor|].
    + change (negb (Z.of_nat (length (@nil user)) =? -1)) with true. cbv iota.
      pose proof (splice_1 [] p l) as Hs. simpl app in Hs. by rewrite Hs.
    + apply strict_eq_true. by inversion Hl.
  - eapply Forall_impl; [exact Hl|]. intros u Hu. by apply strict_ne_false.
Qed.

Lemma find_nil c : find_and_remove_partner c [] = (None, []).
Proof. reflexivity. Qed.

(** A queue is all of region [c], or it splits at its first entry of
    another region. *)
Lemma region_split c (q : list user) :
  Forall (λ u, country u = c) q ∨
  ∃ l1 p l2, q = l1 ++ p :: l2 ∧ Forall (λ u, country u = c) l1 ∧ country p ≠ c.
Proof.
  destruct (first_split (λ u, strict_ne (country u) c) q)
    as [Hq | (l1 & p & l2 & -> & Hl1 & Hp)].
  - left. eapply Forall_impl; [exact Hq|]. intros u Hu. by apply strict_ne_false.
  - right. exists l1, p, l2. repeat split.
    + eapply Forall_impl; [exact Hl1|]. intros u Hu. by apply strict_ne_false.
    + by apply strict_ne_true.
Qed.

(** Whatever the search returns was in the queue, and is what the queue
    has lost. *)
Lemma find_inv c q o rest :
  find_and_remove_partner c q = (o, rest) →
  (o = None ∧ q = [] ∧ rest = []) ∨
  (∃ l1 p l2, o = Some p ∧ q = l1 ++ p :: l2 ∧ rest = l1 ++ l2).
Proof.
  intros H. destruct (region_split c q) as [Hq | (l1 & p & l2 & -> & Hl1 & Hp)].
  - destruct q as [|p l].
    + rewrite find_nil in H. left. naive_solver.
    + rewrite find_local in H by done. right. exists [], p, l. naive_solver.
  - rewrite find_worldwide in H by done. right. exists l1, p, l2. naive_solver.
Qed.

End QueueFacts.

(** ** The matching policy *)

Module Matching.
Import Js JsFacts Server QueueFacts Scenario.

(** Scenario 1: A waits, B joins and is matched with A by the local
    fallback; the queue is empty afterwards. *)
Example scenario_1 :
  let '(st, out) :=
    run [ ev_connection "A1"; ev_connection "B2";
          ev_start_matching "A1" (UserData "Ann" "US");
          ev_start_matching "B2" (UserData "Bob" "US") ] init in
  waitingUsers st = [] ∧
  out = [ Emit "A1" waiting_in_queue;
          Emit "B2" (match_found "A1" "Ann" "US");
          Emit "A1" (match_found "B2" "Bob" "US") ].
Proof. vm_compute. done. Qed.

(** Scenario 2: A waits, C of another region joins and is matched with A. *)
Example scenario_2 :
  let '(st, out) :=
    run [ ev_connection "A1"; ev_connection "C3";
          ev_start_matching "A1" (UserData "Ann" "US");
          ev_start_matching "C3" (UserData "Cat" "FR") ] init in
  waitingUsers st = [] ∧
  out = [ Emit "A1" waiting_in_queue;
          Emit "C3" (match_found "A1" "Ann" "US");
          Emit "A1" (match_found "C3" "Cat" "FR") ].
Proof. vm_compute. done. Qed.

(** The worldwide tier passes over an older entry of the own region. *)
Example worldwide_skips_local :
  find_and_remove_partner "US" [A; C; B] = (Some C, [A; B]).
Proof. reflexivity. Qed.

(** The search runs on the queue the handler has already cleaned of the
    requester: an older entry of the requester itself, left under another
    region, is no candidate. *)
Example own_stale_entry_is_no_candidate :
  (start_matching "A1" (UserData "Ann" "US")
     (State [User "A1" "Ann" "FR"; B] {[ "A1"; "B2" ]})).2
  = [ Emit "A1" (match_found "B2" "Bob" "US");
      Emit "B2" (match_found "A1" "Ann" "US") ].
Proof. reflexivity. Qed.

(** C1. Whenever the queue holds an entry of a region other than [r], the
    search for region [r] returns the first such entry in insertion order
    (every entry before it is of region [r]), which is never of region
    [r], and takes it out of the queue. *)
Theorem cross_region_first (Q : list user) (r : string) :
  (∃ e, e ∈ Q ∧ country e ≠ r) →
  ∃ l1 p l2,
    Q = l1 ++ p :: l2 ∧
    Forall (λ u, country u = r) l1 ∧
    country p ≠ r ∧
    find_and_remove_partner r Q = (Some p, l1 ++ l2).
Proof.
  intros (e & He & Hne).
  destruct (region_split r Q) as [HQ | (l1 & p & l2 & -> & Hl1 & Hp)].
  - rewrite Forall_forall in HQ. by destruct Hne; apply HQ.
  - exists l1, p, l2. by rewrite find_worldwide.
Qed.

(** In the handler the same holds of the entries of the other sockets. *)
Lemma cross_region_first_in_handler sid d st :
  (∃ e, e ∈ waitingUsers st ∧ id e ≠ sid ∧ country e ≠ ud_country d) →
  ∃ l1 p l2,
    remove sid (waitingUsers st) = l1 ++ p :: l2 ∧
    Forall (λ u, country u = ud_country d) l1 ∧
    country p ≠ ud_country d ∧
    (id p ∈ sockets st →
     (start_matching sid d st).2 =
       [ Emit sid (match_found (id p) (username p) (country p));
         Emit (id p) (match_found sid (ud_username d) (ud_country d)) ]).
Proof.
  intros (e & He & Hid & Hne).
  destruct (region_split (ud_country d) (remove sid (waitingUsers st)))
    as [HQ | (l1 & p & l2 & Hq & Hl1 & Hp)].
  - rewrite Forall_forall in HQ. destruct Hne. apply HQ. by apply elem_of_remove.
  - exists l1, p, l2. repeat split; [done..|]. intros Hlive.
    unfold start_matching. rewrite Hq, find_worldwide by done.
    by rewrite bool_decide_true.
Qed.

Lemma cross_region_first_witness :
  ∃ l1 p l2,
    [A; C; B] = l1 ++ p :: l2 ∧
    Forall (λ u, country u = "US") l1 ∧
    country p ≠ "US" ∧
    find_and_remove_partner "US" [A; C; B] = (Some p, l1 ++ l2).
Proof.
  apply (cross_region_first [A; C; B] "US").
  exists C. split; [|discriminate].
  apply list_elem_of_In. simpl. tauto.
Defined.

(** C2. When every entry of the queue is of region [r], the search for
    region [r] returns the first entry of the queue if there is one; and
    when the queue searched is empty the handler appends the requester
    and sends it [waiting-in-queue]. *)
Theorem same_region_fallback (Q : list user) (r : string) :
  Forall (λ u, country u = r) Q →
  find_and_remove_partner r Q = (head Q, tail Q) ∧
  (Q = [] → ∀ sid d st,
     ud_country d = r → remove sid (waitingUsers st) = Q →
     start_matching sid d st =
       (State [User sid (ud_username d) r] (sockets st),
        [Emit sid waiting_in_queue])).
Proof.
  intros HQ. split.
  - destruct Q as [|p l]; [apply find_nil | by apply find_local].
  - intros -> sid d st <- Hq. unfold start_matching. by rewrite Hq, find_nil.
Qed.

Lemma same_region_fallback_witness :
  find_and_remove_partner "US" [A; B] = (Some A, [B]) ∧
  start_matching "A1" (UserData "Ann" "US") init =
    (State [A] ∅, [Emit "A1" waiting_in_queue]).
Proof.
  split.
  - apply (same_region_fallback [A; B] "US"). by repeat constructor.
  - refine (proj2 (same_region_fallback [] "US" _) eq_refl
              "A1" (UserData "Ann" "US") init eq_refl eq_refl).
    constructor.
Defined.

(** C7. When the partner the search selects is no longer connected, no
    match is announced: the selected entry is dropped from the queue, the
    requester is appended to it and is sent [waiting-in-queue], and
    nothing else is sent. *)
Theorem stale_partner_requeues sid d st p rest :
  find_and_remove_partner (ud_country d) (remove sid (waitingUsers st))
    = (Some p, rest) →
  id p ∉ sockets st →
  start_matching sid d st =
    (State (rest ++ [User sid (ud_username d) (ud_country d)]) (sockets st),
     [Emit sid waiting_in_queue]).
Proof.
  intros Hfind Hstale. unfold start_matching. rewrite Hfind.
  by rewrite bool_decide_false.
Qed.

Lemma stale_partner_requeues_witness :
  start_matching "B2" (UserData "Bob" "US") (State [A] {[ "B2" ]}) =
    (State [B] {[ "B2" ]}, [Emit "B2" waiting_in_queue]).
Proof.
  refine (stale_partner_requeues "B2" (UserData "Bob" "US")
            (State [A] {[ "B2" ]}) A [] eq_refl _).
  simpl. apply not_elem_of_singleton. discriminate.
Defined.

(** C10. The partner selected for a requester is never the requester: its
    own entry is filtered out before the search, so the entry found has
    another id, and every [match-found] sent names a partner other than
    the socket it is sent to. *)
Theorem no_self_match sid d st :
  (∀ p rest,
     find_and_remove_partner (ud_country d) (remove sid (waitingUsers st))
       = (Some p, rest) → id p ≠ sid) ∧
  (∀ a b u c,
     Emit a (match_found b u c) ∈ (start_matching sid d st).2 → a ≠ b).
Proof.
  assert (∀ p rest,
     find_and_remove_partner (ud_country d) (remove sid (waitingUsers st))
       = (Some p, rest) → id p ≠ sid) as Hsel.
  { intros p rest [(? & _) | (l1 & p' & l2 & [= <-] & Hq & _)]%find_inv; [done|].
    assert (p ∈ remove sid (waitingUsers st)) as Hp.
    { rewrite Hq. apply elem_of_app. right. apply elem_of_cons. by left. }
    by apply elem_of_remove in Hp as [_ ?]. }
  split; [exact Hsel|].
  intros a b u c. unfold start_matching.
  destruct (find_and_remove_partner _ _) as [[p|] rest] eqn:Hfind; simpl.
  - specialize (Hsel p rest eq_refl). case_bool_decide; simpl.
    + rewrite !elem_of_cons, elem_of_nil. intros [[= -> ->] | [[= -> ->] | []]]; congruence.
    + rewrite list_elem_of_singleton. discriminate.
  - rewrite list_elem_of_singleton. discriminate.
Qed.

Lemma no_self_match_witness :
  id A ≠ "B2".
Proof.
  apply (proj1 (no_self_match "B2" (UserData "Bob" "US") (State [B; A] ∅)) A []).
  reflexivity.
Defined.

End Matching.

(** ** The queue over time *)

Module QueueInvariant.
Import Js JsFacts Server QueueFacts.

(** The three ways [start-matching] ends: a match with a connected
    partner, a stale partner, or nobody to match with. *)
Lemma start_matching_cases sid d st :
  let me := User sid (ud_username d) (ud_country d) in
  (∃ l1 p l2,
      remove sid (waitingUsers st) = l1 ++ p :: l2 ∧ id p ∈ sockets st ∧
      start_matching sid d st =
        (State (l1 ++ l2) (sockets st),
         [ Emit sid (match_found (id p) (username p) (country p));
           Emit (id p) (match_found sid (ud_username d) (ud_country d)) ])) ∨
  (∃ l1 p l2,
      remove sid (waitingUsers st) = l1 ++ p :: l2 ∧ (id p ∉ sockets st) ∧
      start_matching sid d st =
        (State ((l1 ++ l2) ++ [me]) (sockets st), [ Emit sid waiting_in_queue ])) ∨
  (remove sid (waitingUsers st) = [] ∧
   start_matching sid d st = (State [me] (sockets st), [ Emit sid waiting_in_queue ])).
Proof.
  intros me. unfold start_matching.
  destruct (find_and_remove_partner _ _) as [o rest] eqn:Hfind.
  apply find_inv in Hfind as [(-> & Hq & ->) | (l1 & p & l2 & -> & Hq & ->)].
  - right. right. by rewrite Hq.
  - case_bool_decide.
    + left. by exists l1, p, l2.
    + right. left. by exists l1, p, l2.
Qed.

Lemma sublist_drop_middle {A} (l1 l2 : list A) x :
  (l1 ++ l2) `sublist_of` (l1 ++ x :: l2).
Proof. apply sublist_app; [done|]. by apply sublist_cons. Qed.

Lemma NoDup_ids_push (q : list user) u :
  NoDup (id <$> q) → id u ∉ id <$> q → NoDup (id <$> q ++ [u]).
Proof.
  intros Hq Hu. rewrite fmap_app. apply NoDup_app. repeat split; [done| |].
  - intros x Hx ->%list_elem_of_singleton. done.
  - apply NoDup_singleton.
Qed.

Lemma NoDup_ids_sublist (q q' : list user) :
  q' `sublist_of` q → NoDup (id <$> q) → NoDup (id <$> q').
Proof. intros Hsub Hq. eapply sublist_NoDup; [exact Hq|]. by apply fmap_sublist. Qed.

Lemma not_elem_of_ids_sublist (q q' : list user) x :
  q' `sublist_of` q → x ∉ id <$> q → x ∉ id <$> q'.
Proof.
  intros Hsub Hx Hx'. apply Hx.
  eapply elem_of_sublist; [exact Hx'|]. by apply fmap_sublist.
Qed.

(** Every handler keeps the queue free of duplicates. *)
Lemma step_queue_inv e st : queue_inv st → queue_inv (step e st).1.
Proof.
  unfold queue_inv. intros Hinv. destruct e as [sid|sid d|sid d|sid p|sid]; simpl;
    [done| |done|by eapply NoDup_ids_sublist, Hinv; apply remove_sublist..].
  pose proof (NoDup_ids_sublist _ _ (remove_sublist sid (waitingUsers st)) Hinv) as Hrem.
  pose proof (not_elem_of_ids_remove sid (waitingUsers st)) as Hsid.
  destruct (start_matching_cases sid d st)
    as [(l1 & p & l2 & Hq & _ & ->) | [(l1 & p & l2 & Hq & _ & ->) | (_ & ->)]]; simpl.
  - rewrite Hq in Hrem. eapply NoDup_ids_sublist, Hrem. apply sublist_drop_middle.
  - rewrite Hq in Hrem, Hsid. apply NoDup_ids_push.
    + eapply NoDup_ids_sublist, Hrem. apply sublist_drop_middle.
    + eapply not_elem_of_ids_sublist, Hsid. apply sublist_drop_middle.
  - apply NoDup_singleton.
Qed.

Lemma run_queue_inv es st : queue_inv st → queue_inv (run es st).1.
Proof.
  revert st. induction es as [|e es IH]; intros st Hinv; simpl; [done|].
  pose proof (step_queue_inv e st Hinv) as Hstep.
  destruct (step e st) as [st1 out1]. specialize (IH st1 Hstep).
  by destruct (run es st1) as [st2 out2].
Qed.

Lemma reachable_queue_inv st : reachable st → queue_inv st.
Proof.
  induction 1 as [|e st _ IH]; [constructor | by apply step_queue_inv].
Qed.

Lemma entries_of_absent sid q : sid ∉ id <$> q → entries_of sid q = [].
Proof.
  unfold entries_of. induction q as [|u q IH]; simpl; [done|].
  rewrite not_elem_of_cons. intros [Hu Hq].
  destruct (strict_eq (id u) sid) eqn:Heq; [|by apply IH].
  apply strict_eq_true in Heq. congruence.
Qed.

Lemma entries_of_app sid q1 q2 :
  entries_of sid (q1 ++ q2) = entries_of sid q1 ++ entries_of sid q2.
Proof. apply List.filter_app. Qed.

(** C8. Over every sequence of connection, start-matching, signal,
    user-hangup and disconnect events the queue holds at most one entry
    per socket id; and a start-matching leaves at most one entry of the
    requester whatever the queue was, because the older entries are
    filtered out before the new one is pushed. *)
Theorem queue_one_entry_per_socket :
  (∀ es, NoDup (id <$> waitingUsers (run es init).1)) ∧
  (∀ sid d st,
     (length (entries_of sid (waitingUsers (start_matching sid d st).1)) ≤ 1)%nat).
Proof.
  split.
  - intros es. apply (run_queue_inv es init). constructor.
  - intros sid d st.
    pose proof (not_elem_of_ids_remove sid (waitingUsers st)) as Hsid.
    destruct (start_matching_cases sid d st)
      as [(l1 & p & l2 & Hq & _ & ->) | [(l1 & p & l2 & Hq & _ & ->) | (_ & ->)]]; simpl.
    + rewrite Hq in Hsid. rewrite entries_of_absent; [simpl; lia|].
      eapply not_elem_of_ids_sublist, Hsid. apply sublist_drop_middle.
    + rewrite Hq in Hsid. rewrite entries_of_app, entries_of_absent.
      * unfold entries_of, strict_eq. simpl. rewrite String.eqb_refl. simpl. lia.
      * eapply not_elem_of_ids_sublist, Hsid. apply sublist_drop_middle.
    + unfold entries_of, strict_eq. simpl. rewrite String.eqb_refl. simpl. lia.
Qed.

(** C9. Removing a socket from the queue, its user-hangup and its
    disconnect leave, applied twice, the state they leave applied once. *)
Theorem cleanup_idempotent sid st :
  remove sid (remove sid (waitingUsers st)) = remove sid (waitingUsers st) ∧
  (∀ partnerId,
     (user_hangup sid partnerId (user_hangup sid partnerId st).1).1
     = (user_hangup sid partnerId st).1) ∧
  (disconnect sid (disconnect sid st).1).1 = (disconnect sid st).1.
Proof.
  split; [apply remove_idemp|]. split.
  - intros partnerId. unfold user_hangup. simpl. by rewrite remove_idemp.
  - unfold disconnect. simpl. rewrite remove_idemp. f_equal. apply difference_twice_L.
Qed.

(** The second user-hangup does repeat the notification of the partner:
    only the state is the same. *)
Example hangup_twice_notifies_twice :
  (run [ev_user_hangup "A1" (Some "B2"); ev_user_hangup "A1" (Some "B2")] init).2
  = [Emit "B2" partner_dropped; Emit "B2" partner_dropped].
Proof. reflexivity. Qed.

End QueueInvariant.

(** ** Negotiation roles *)

Module Roles.
Import Js Client.

Lemma N_of_ascii_inj x y : N_of_ascii x = N_of_ascii y → x = y.
Proof. intros H. by rewrite <-(ascii_N_embedding x), <-(ascii_N_embedding y), H. Qed.

Lemma string_lt_irrefl a : string_lt a a = false.
Proof.
  induction a as [|x a IH]; simpl; [done|]. by rewrite N.ltb_irrefl.
Qed.

(** Of two different strings exactly one is smaller than the other. *)
Lemma string_lt_total a b : a ≠ b → string_lt a b = negb (string_lt b a).
Proof.
  revert b. induction a as [|x a IH]; intros [|y b] Hne; simpl; try done.
  destruct (N.ltb_spec (N_of_ascii x) (N_of_ascii y)) as [Hxy|Hxy].
  - destruct (N.ltb_spec (N_of_ascii y) (N_of_ascii x)); [lia|done].
  - destruct (N.ltb_spec (N_of_ascii y) (N_of_ascii x)) as [Hyx|Hyx]; [done|].
    apply IH. intros ->. apply Hne. f_equal. apply N_of_ascii_inj. lia.
Qed.

(** A page makes the offer exactly when it computes the initiator role. *)
Lemma on_match_found_offers c p u co :
  pc_createOffer ∈ (exec (on_match_found p u co) c).2 ↔
  negotiation_role (socket_id c) p = initiator.
Proof.
  destruct c as [sid ls pc pid ud]. unfold negotiation_role.
  unfold exec, on_match_found, createPeerConnection, createOffer.
  unfold mbind, M_bind, get, tell, when, set_partnerId, set_peerConnection.
  cbn -[isInitiator].
  destruct (isInitiator sid p), ls, pc; unfold mret, M_ret; cbn;
    rewrite !elem_of_cons, elem_of_nil; intuition congruence.
Qed.

Example ids_compare_by_code_unit :
  isInitiator "A1" "B2" = true ∧ isInitiator "B2" "A1" = false ∧
  isInitiator "Zb" "aa" = true ∧ isInitiator "ab" "abc" = true.
Proof. done. Qed.

(** A page matched with its own id would make no offer. *)
Example same_id_no_initiator : negotiation_role "A1" "A1" = responder.
Proof. reflexivity. Qed.

(** C5. For two different socket ids the roles the two pages compute are
    complementary: one side is the initiator exactly when the other is the
    responder, so exactly one of the two is the initiator, and exactly one
    of the two pages makes the offer when it handles its [match-found]. *)
Theorem roles_complementary (a b : string) :
  a ≠ b →
  isInitiator a b = negb (isInitiator b a) ∧
  (negotiation_role a b = initiator ↔ negotiation_role b a = responder) ∧
  ((negotiation_role a b = initiator ∧ negotiation_role b a = responder) ∨
   (negotiation_role a b = responder ∧ negotiation_role b a = initiator)) ∧
  (∀ ca cb ua ra ub rb, socket_id ca = a → socket_id cb = b →
     pc_createOffer ∈ (exec (on_match_found b ub rb) ca).2 ↔
     pc_createOffer ∉ (exec (on_match_found a ua ra) cb).2).
Proof.
  intros Hne. pose proof (string_lt_total a b Hne) as Htot.
  assert (negotiation_role a b = initiator ↔ negotiation_role b a = responder) as Hrole.
  { unfold negotiation_role, isInitiator. rewrite Htot.
    destruct (string_lt b a); simpl; split; congruence. }
  split; [exact Htot|]. split; [exact Hrole|]. split.
  - destruct (negotiation_role a b), (negotiation_role b a); intuition congruence.
  - intros ca cb ua ra ub rb <- <-. rewrite !on_match_found_offers, Hrole.
    destruct (negotiation_role (socket_id cb) (socket_id ca)); split; congruence.
Qed.

Lemma roles_complementary_witness :
  negotiation_role "A1" "B2" = initiator ∧ negotiation_role "B2" "A1" = responder.
Proof.
  assert ("A1" ≠ "B2") as Hne by discriminate.
  destruct (roles_complementary "A1" "B2" Hne) as (_ & Hrole & _).
  split; [reflexivity|]. apply Hrole. reflexivity.
Defined.

End Roles.

(** ** Auto-requeue *)

Module Requeue.
Import Js Client Scenario.

Ltac run_handler :=
  unfold exec, on_partner_dropped, on_hangup_click, on_iceconnectionstatechange,
    clearConnectionState, requeueForMatch, startLocalMediaView, handleHangUp;
  unfold mbind, M_bind, get, tell, when, set_partnerId, set_peerConnection,
    set_localStream;
  cbn -[truthy];
  unfold mret, M_ret.

(** Ann's partner drops: the call is torn down and she is back in the queue
    with her name and region; nothing is sent to the partner. *)
Example ann_partner_dropped :
  let '(c, out) := exec on_partner_dropped ann_in_call in
  c = Client "A1" true None None (Server.UserData "Ann" "US") ∧
  emitted out = [start_matching (Server.UserData "Ann" "US")] ∧
  head out = Some pc_close.
Proof. done. Qed.

(** The other two ways out of a call do tell the partner. *)
Example ann_hangs_up :
  emitted (exec on_hangup_click ann_in_call).2 =
    [user_hangup (Some "B2"); start_matching (Server.UserData "Ann" "US")].
Proof. reflexivity. Qed.

Example ann_ice_failed :
  emitted (exec (on_iceconnectionstatechange "failed") ann_in_call).2 =
    [user_hangup (Some "B2"); start_matching (Server.UserData "Ann" "US")].
Proof. reflexivity. Qed.

(** Without display attributes the page goes back to the lobby and sends
    nothing. *)
Example no_attributes_back_to_lobby :
  let '(c, out) :=
    exec on_partner_dropped
      (Client "A1" true (Some (PeerConnection true)) (Some "B2") (Server.UserData "" ""))
  in
  c = Client "A1" false None None (Server.UserData "" "") ∧
  emitted out = [] ∧
  classList_remove lobbyView "hidden" ∈ out.
Proof.
  split; [reflexivity|]. split; [reflexivity|].
  apply list_elem_of_In. vm_compute. tauto.
Qed.

(** C4. A page in a session (it has a partner and a peer connection) whose
    display attributes were supplied handles [partner-dropped] by closing
    the peer connection, forgetting it and the partner id, and sending
    [start-matching] with the attributes it holds, unchanged; that is all
    it sends, so no [user-hangup] goes back to the partner. The camera
    stream is kept. *)
Theorem partner_dropped_requeues (c : client) :
  in_session c → attrs_supplied c →
  let '(c', out) := exec on_partner_dropped c in
  partnerId c' = None ∧
  peerConnection c' = None ∧
  pc_close ∈ out ∧
  localUserData c' = localUserData c ∧
  localStream c' = localStream c ∧
  socket_id c' = socket_id c ∧
  emitted out = [start_matching (localUserData c)].
Proof.
  destruct c as [sid ls pc pid ud]. intros [[p Hp] [k Hk]] [Hu Hc].
  simpl in *. subst. destruct ls; run_handler; rewrite Hu, Hc; cbn;
    (repeat split; try done); rewrite !elem_of_cons; tauto.
Qed.

Lemma partner_dropped_requeues_witness :
  let '(c', out) := exec on_partner_dropped ann_in_call in
  partnerId c' = None ∧
  peerConnection c' = None ∧
  pc_close ∈ out ∧
  localUserData c' = Server.UserData "Ann" "US" ∧
  localStream c' = true ∧
  socket_id c' = "A1" ∧
  emitted out = [start_matching (Server.UserData "Ann" "US")].
Proof.
  apply (partner_dropped_requeues ann_in_call).
  - split; eexists; reflexivity.
  - split; reflexivity.
Defined.

End Requeue.

(** ** Sessions and the relay *)

Module Sessions.
Import Js Server QueueFacts QueueInvariant World Scenario.

Lemma reachable_run es st : reachable st → reachable (run es st).1.
Proof.
  revert st. induction es as [|e es IH]; intros st Hst; simpl; [done|].
  pose proof (reachable_step e st Hst) as Hstep.
  destruct (Server.step e st) as [st1 out1]. specialize (IH st1 Hstep).
  by destruct (run es st1) as [st2 out2].
Qed.

(** The page records the partner that [match-found] names. *)
Lemma on_match_found_partnerId c p u r :
  Client.partnerId (Client.exec (Client.on_match_found p u r) c).1 = Some p.
Proof.
  destruct c as [sid ls pc pid ud].
  unfold Client.exec, Client.on_match_found, Client.createPeerConnection,
    Client.createOffer.
  unfold mbind, Client.M_bind, Client.get, Client.tell, Client.when,
    Client.set_partnerId, Client.set_peerConnection.
  cbn -[Client.isInitiator].
  by destruct (Client.isInitiator sid p), ls, pc.
Qed.

(** Once both announcements of a match are handled, each page names the
    other. *)
Lemma deliver_match (cs : gmap string Client.client) a b ua ra ub rb :
  a ≠ b → is_Some (cs !! a) → is_Some (cs !! b) →
  let w' st := World st (foldl deliver cs
                 [Emit a (match_found b ub rb); Emit b (match_found a ua ra)]) in
  ∀ st, session (w' st) a b ∧ session (w' st) b a.
Proof.
  intros Hne [ca Ha] [cb Hb] w' st. unfold w', session. simpl.
  assert (deliver cs (Emit a (match_found b ub rb))
          = <[a := (Client.exec (Client.on_match_found b ub rb) ca).1]> cs) as ->.
  { unfold deliver. simpl. by rewrite Ha. }
  unfold deliver. simpl. rewrite lookup_insert_ne, Hb by done. split.
  - eexists. split; [|apply on_match_found_partnerId].
    rewrite lookup_insert_ne by done. apply lookup_insert_eq.
  - eexists. split; [|apply on_match_found_partnerId].
    apply lookup_insert_eq.
Qed.

(** C3. On a server reached from its start, when a start-matching announces
    to [a] a match with [b], the match is announced to [b] as well, neither
    [a] nor [b] has an entry in the queue afterwards, and once the pages of
    both have handled what they were sent each holds the session record
    naming the other ([partnerId]). *)
Theorem match_clears_queue_and_opens_session (w : world) sid d a b u r :
  reachable (server w) →
  Emit a (match_found b u r) ∈ (start_matching sid d (server w)).2 →
  is_Some (clients w !! a) → is_Some (clients w !! b) →
  let w' := World.step (ev_start_matching sid d) w in
  (∃ u' r', Emit b (match_found a u' r') ∈ (start_matching sid d (server w)).2) ∧
  (a ∉ id <$> waitingUsers (server w')) ∧
  (b ∉ id <$> waitingUsers (server w')) ∧
  session w' a b ∧ session w' b a.
Proof.
  intros Hreach Hout Ha Hb w'. unfold w', World.step. simpl.
  pose proof (reachable_queue_inv _ Hreach) as Hinv.
  pose proof (NoDup_ids_sublist _ _ (remove_sublist sid (waitingUsers (server w))) Hinv)
    as Hrem.
  pose proof (not_elem_of_ids_remove sid (waitingUsers (server w))) as Hsid.
  destruct (start_matching_cases sid d (server w))
    as [(l1 & p & l2 & Hq & _ & Heq) | [(l1 & p & l2 & _ & _ & Heq) | (_ & Heq)]];
    rewrite Heq in Hout |- *; simpl in Hout; simpl.
  - rewrite Hq in Hrem, Hsid.
    assert (sid ∉ id <$> l1 ++ l2) as Hsid'.
    { eapply not_elem_of_ids_sublist, Hsid. apply sublist_drop_middle. }
    assert (id p ∉ id <$> l1 ++ l2) as Hp.
    { rewrite fmap_app, fmap_cons in Hrem.
      apply NoDup_app in Hrem as (_ & Hl1 & [Hl2 _]%NoDup_cons).
      rewrite fmap_app, elem_of_app. intros [Hin | Hin]; [|done].
      apply (Hl1 _ Hin), elem_of_cons. by left. }
    assert (sid ≠ id p) as Hne.
    { intros Heq'. apply Hsid. rewrite Heq', fmap_app, elem_of_app. right.
      rewrite fmap_cons. apply elem_of_cons. by left. }
    rewrite !elem_of_cons, elem_of_nil in Hout.
    destruct Hout as [[= -> -> -> ->] | [[= -> -> -> ->] | []]].
    + split; [eexists _, _; apply elem_of_cons; right; apply elem_of_cons; by left|].
      split; [done|]. split; [done|].
      by apply (deliver_match (clients w) sid (id p)).
    + split; [eexists _, _; apply elem_of_cons; by left|].
      split; [done|]. split; [done|].
      apply and_comm. by apply (deliver_match (clients w) sid (id p)).
  - apply list_elem_of_singleton in Hout. discriminate.
  - apply list_elem_of_singleton in Hout. discriminate.
Qed.

Lemma match_clears_queue_and_opens_session_witness :
  let w' := World.step (ev_start_matching "B2" (UserData "Bob" "US")) ann_waits in
  (∃ u' r', Emit "A1" (match_found "B2" u' r')
              ∈ (start_matching "B2" (UserData "Bob" "US") (server ann_waits)).2) ∧
  ("B2" ∉ id <$> waitingUsers (server w')) ∧
  ("A1" ∉ id <$> waitingUsers (server w')) ∧
  session w' "B2" "A1" ∧ session w' "A1" "B2".
Proof.
  apply (match_clears_queue_and_opens_session ann_waits "B2" (UserData "Bob" "US")
           "B2" "A1" "Ann" "US").
  - apply reachable_run, reachable_init.
  - apply list_elem_of_In. vm_compute. tauto.
  - eexists. reflexivity.
  - eexists. reflexivity.
Defined.

(** In the lobby no page has a partner, yet a signal of A1 for B2 is relayed
    and reaches B2. *)
Lemma lobby_signal_relayed :
  let data := SignalData "B2" "sdp-offer" "v=0" in
  delivered (server lobby) (on_signal "A1" data (server lobby)).2
    = [Emit "B2" (signal "A1" "sdp-offer" "v=0")] ∧
  ¬ session lobby "A1" "B2".
Proof.
  split; [reflexivity|].
  intros (c & Hc & Hp). vm_compute in Hc. injection Hc as <-. discriminate.
Qed.

(** C6, as claimed, fails: the relay is not gated by a session. *)
Lemma relay_not_gated_by_session : ¬ relay_gated_by_session.
Proof.
  intros Hgated. destruct lobby_signal_relayed as [Hout Hno]. apply Hno.
  apply (Hgated lobby "A1" (SignalData "B2" "sdp-offer" "v=0")
           (Emit "B2" (signal "A1" "sdp-offer" "v=0"))).
  cbv zeta in Hout. rewrite Hout. apply list_elem_of_singleton. reflexivity.
Qed.

(** C6, amended. Whatever the sessions are, a signal of socket [sid] is sent
    on to the target it names and to nobody else, tagged with [sid] and
    with its type and payload untouched; it reaches the target exactly when
    the target is connected; the server state does not change. *)
Theorem signal_relayed_to_target (w : world) sid data :
  let relayed := Emit (target data) (signal sid (type data) (payload data)) in
  on_signal sid data (server w) = (server w, [relayed]) ∧
  delivered (server w) (on_signal sid data (server w)).2
    = (if bool_decide (target data ∈ sockets (server w)) then [relayed] else []) ∧
  server (World.step (ev_signal sid data) w) = server w.
Proof. done. Qed.

End Sessions.

(** ** The handlers of the server, one event at a time *)

Module ServerFacts.
Import Js JsFacts Server QueueFacts QueueInvariant Discipline Scenario.

(** Every start-matching is answered. The requester is sent exactly one of
    [waiting-in-queue] and [match-found]; a match is announced only with a
    connected user of another socket that was waiting, to both sides, each
    being told the id of the other with the name and region the other
    gave. *)
Theorem start_matching_answers sid d st :
  (start_matching sid d st).2 = [ Emit sid waiting_in_queue ] ∨
  ∃ p, p ∈ waitingUsers st ∧ id p ≠ sid ∧ id p ∈ sockets st ∧
       (start_matching sid d st).2 =
         [ Emit sid (match_found (id p) (username p) (country p));
           Emit (id p) (match_found sid (ud_username d) (ud_country d)) ].
Proof.
  destruct (start_matching_cases sid d st)
    as [(l1 & p & l2 & Hq & Hlive & ->) | [(l1 & p & l2 & _ & _ & ->) | (_ & ->)]];
    [right | by left..].
  assert (p ∈ remove sid (waitingUsers st)) as [Hp Hne]%elem_of_remove.
  { rewrite Hq, elem_of_app, elem_of_cons. by right; left. }
  by exists p.
Qed.

(** A start-matching takes at most one waiting user of another socket out
    of the queue and leaves the others in their order. *)
Theorem start_matching_keeps_others sid d st :
  ∃ l1 mid l2,
    remove sid (waitingUsers st) = l1 ++ mid ++ l2 ∧
    (length mid ≤ 1)%nat ∧
    remove sid (waitingUsers (start_matching sid d st).1) = l1 ++ l2.
Proof.
  assert (∀ q, sid ∉ id <$> q → remove sid q = q) as Hid.
  { intros q. induction q as [|u q IH]; [done|].
    rewrite fmap_cons, not_elem_of_cons. intros [Hu Hq].
    unfold remove in *. simpl.
    destruct (strict_ne (id u) sid) eqn:Hne; [by rewrite IH|].
    apply strict_ne_false in Hne. congruence. }
  pose proof (not_elem_of_ids_remove sid (waitingUsers st)) as Hsid.
  assert (remove sid [User sid (ud_username d) (ud_country d)] = []) as Hme.
  { unfold remove, strict_ne, strict_eq. simpl. by rewrite String.eqb_refl. }
  destruct (start_matching_cases sid d st)
    as [(l1 & p & l2 & Hq & _ & ->) | [(l1 & p & l2 & Hq & _ & ->) | (Hq & ->)]];
    cbn [fst waitingUsers]; rewrite Hq in *.
  - exists l1, [p], l2. repeat split; [done|].
    apply Hid. eapply not_elem_of_ids_sublist, Hsid. apply sublist_drop_middle.
  - exists l1, [p], l2. repeat split; [done|].
    unfold remove at 1. unfold Js.filter. rewrite List.filter_app.
    fold (Js.filter (λ u, strict_ne (id u) sid) (l1 ++ l2)).
    fold (Js.filter (λ u, strict_ne (id u) sid)
            [User sid (ud_username d) (ud_country d)]).
    fold (remove sid (l1 ++ l2)).
    fold (remove sid [User sid (ud_username d) (ud_country d)]).
    rewrite Hme, app_nil_r.
    apply Hid. eapply not_elem_of_ids_sublist, Hsid. apply sublist_drop_middle.
  - exists [], [], []. repeat split; [simpl; lia|]. apply Hme.
Qed.

(** A user-hangup and a disconnect take the entry of their own socket out
    of the queue and nothing else: the entries of the other sockets stay,
    in their order. *)
Theorem cleanup_keeps_others sid partnerId st :
  let q := waitingUsers st in
  let after_hangup := waitingUsers (user_hangup sid partnerId st).1 in
  let after_disconnect := waitingUsers (disconnect sid st).1 in
  after_hangup = after_disconnect ∧
  after_hangup `sublist_of` q ∧
  (sid ∉ id <$> after_hangup) ∧
  (∀ u, u ∈ after_hangup ↔ u ∈ q ∧ id u ≠ sid) ∧
  (∀ other, other ≠ sid → entries_of other after_hangup = entries_of other q).
Proof.
  simpl. split; [done|]. split; [apply remove_sublist|].
  split; [apply not_elem_of_ids_remove|]. split; [apply elem_of_remove|].
  intros other Hne. unfold entries_of, remove, Js.filter.
  induction (waitingUsers st) as [|u q IH]; simpl; [done|].
  destruct (strict_ne (id u) sid) eqn:Hu; simpl.
  - destruct (strict_eq (id u) other); by rewrite IH.
  - apply strict_ne_false in Hu.
    destruct (strict_eq (id u) other) eqn:Ho; [|done].
    apply strict_eq_true in Ho. congruence.
Qed.

End ServerFacts.

(** ** The queue of a server whose events keep the discipline *)

Module DisciplineFacts.
Import Js JsFacts Server QueueFacts QueueInvariant Discipline Scenario.

Lemma elem_of_drop_middle {A} (l1 l2 : list A) x y :
  y ∈ l1 ++ l2 → y ∈ l1 ++ x :: l2.
Proof. rewrite !elem_of_app, elem_of_cons. tauto. Qed.

Lemma remove_length sid q : (length (remove sid q) ≤ length q)%nat.
Proof. apply sublist_length, remove_sublist. Qed.

(** Each handler keeps the waiting users connected, provided a
    start-matching comes from a connected socket. *)
Lemma step_queue_connected e st :
  wf_event st e = true → queue_connected st → queue_connected (step e st).1.
Proof.
  unfold queue_connected. intros Hwf Hinv.
  destruct e as [sid|sid d|sid d|sid p|sid]; simpl in *.
  - intros u Hu. apply elem_of_union. right. by apply Hinv.
  - apply bool_decide_eq_true in Hwf.
    assert (∀ u, u ∈ remove sid (waitingUsers st) → id u ∈ sockets st) as Hrem.
    { intros u [Hu _]%elem_of_remove. by apply Hinv. }
    destruct (start_matching_cases sid d st)
      as [(l1 & p & l2 & Hq & _ & ->) | [(l1 & p & l2 & Hq & _ & ->) | (_ & ->)]];
      simpl; rewrite ?Hq in Hrem.
    + intros u Hu. by apply Hrem, elem_of_drop_middle.
    + intros u [Hu | ->%list_elem_of_singleton]%elem_of_app; [|done].
      by apply Hrem, elem_of_drop_middle.
    + by intros u ->%list_elem_of_singleton.
  - done.
  - intros u [Hu _]%elem_of_remove. by apply Hinv.
  - intros u [Hu Hne]%elem_of_remove. apply elem_of_difference.
    split; [by apply Hinv|]. by rewrite elem_of_singleton.
Qed.

(** With every waiting user connected, no handler lets the queue grow
    beyond one entry. *)
Lemma step_queue_short e st :
  queue_connected st →
  (length (waitingUsers st) ≤ 1)%nat →
  (length (waitingUsers (step e st).1) ≤ 1)%nat.
Proof.
  intros Hinv Hlen. pose proof (remove_length) as Hrl.
  destruct e as [sid|sid d|sid d|sid p|sid]; simpl;
    [done| |done|specialize (Hrl sid (waitingUsers st)); lia..].
  specialize (Hrl sid (waitingUsers st)).
  destruct (start_matching_cases sid d st)
    as [(l1 & p & l2 & Hq & _ & ->) | [(l1 & p & l2 & Hq & Hstale & ->) | (_ & ->)]];
    simpl.
  - rewrite Hq, length_app in Hrl. simpl in Hrl. rewrite length_app. lia.
  - destruct Hstale. apply Hinv.
    assert (p ∈ remove sid (waitingUsers st)) as [Hp _]%elem_of_remove; [|done].
    rewrite Hq, elem_of_app, elem_of_cons. by right; left.
  - lia.
Qed.

Lemma run_discipline es st :
  wf_run es st = true → queue_connected st →
  (length (waitingUsers st) ≤ 1)%nat →
  queue_connected (run es st).1 ∧ (length (waitingUsers (run es st).1) ≤ 1)%nat.
Proof.
  revert st. induction es as [|e es IH]; intros st Hwf Hinv Hlen; simpl in *; [done|].
  apply andb_true_iff in Hwf as [Hwf Hrest].
  pose proof (step_queue_connected e st Hwf Hinv) as Hconn.
  pose proof (step_queue_short e st Hinv Hlen) as Hshort.
  destruct (step e st) as [st1 out1]. simpl in *.
  destruct (IH st1 Hrest Hconn Hshort) as [H1 H2].
  by destruct (run es st1) as [st2 out2].
Qed.

(** On a server started empty whose events come from connected sockets,
    every waiting user is connected: the queue never holds a stale
    entry. *)
Theorem queue_holds_connected_sockets es :
  wf_run es init = true →
  ∀ u, u ∈ waitingUsers (run es init).1 → id u ∈ sockets (run es init).1.
Proof.
  intros Hwf. apply (run_discipline es init Hwf).
  - intros u Hu. by apply elem_of_nil in Hu.
  - simpl. lia.
Qed.

(** The events of the worked scenario: three users connect and ask for a
    match, the first hangs up and asks again, then the second asks again
    and is left waiting. *)
Lemma busy_evening_wf :
  wf_run [ ev_connection "A1"; ev_connection "B2"; ev_connection "C3";
           ev_start_matching "A1" (UserData "Ann" "US");
           ev_start_matching "B2" (UserData "Bob" "US");
           ev_start_matching "C3" (UserData "Cat" "FR");
           ev_user_hangup "A1" (Some "B2");
           ev_start_matching "A1" (UserData "Ann" "US");
           ev_start_matching "B2" (UserData "Bob" "US");
           ev_disconnect "C3" ] init = true.
Proof. vm_compute. reflexivity. Defined.

Lemma queue_holds_connected_sockets_witness :
  let st :=
    (run [ ev_connection "A1"; ev_connection "B2"; ev_connection "C3";
           ev_start_matching "A1" (UserData "Ann" "US");
           ev_start_matching "B2" (UserData "Bob" "US");
           ev_start_matching "C3" (UserData "Cat" "FR");
           ev_user_hangup "A1" (Some "B2");
           ev_start_matching "A1" (UserData "Ann" "US");
           ev_start_matching "B2" (UserData "Bob" "US");
           ev_disconnect "C3" ] init).1 in
  Forall (λ u, id u ∈ sockets st) (waitingUsers st).
Proof.
  apply Forall_forall. exact (queue_holds_connected_sockets _ busy_evening_wf).
Defined.

(** On such a server at most one user waits at any time: whoever asks
    while another waits is matched with that one, whatever the regions. *)
Theorem at_most_one_user_waits es :
  wf_run es init = true →
  (length (waitingUsers (run es init).1) ≤ 1)%nat.
Proof.
  intros Hwf. apply (run_discipline es init Hwf).
  - intros u Hu. by apply elem_of_nil in Hu.
  - simpl. lia.
Qed.

Lemma at_most_one_user_waits_witness :
  (length (waitingUsers
     (run [ ev_connection "A1"; ev_connection "B2"; ev_connection "C3";
            ev_start_matching "A1" (UserData "Ann" "US");
            ev_start_matching "B2" (UserData "Bob" "US");
            ev_start_matching "C3" (UserData "Cat" "FR");
            ev_user_hangup "A1" (Some "B2");
            ev_start_matching "A1" (UserData "Ann" "US");
            ev_start_matching "B2" (UserData "Bob" "US");
            ev_disconnect "C3" ] init).1) ≤ 1)%nat.
Proof. exact (at_most_one_user_waits _ busy_evening_wf). Defined.

(** When every waiting user is connected, the requester is told to wait
    exactly when no other socket is waiting; otherwise a match is
    announced. *)
Theorem waits_only_when_alone sid d st :
  queue_connected st →
  ((start_matching sid d st).2 = [ Emit sid waiting_in_queue ]
   ↔ remove sid (waitingUsers st) = []).
Proof.
  intros Hinv.
  destruct (start_matching_cases sid d st)
    as [(l1 & p & l2 & Hq & _ & ->) | [(l1 & p & l2 & Hq & Hstale & ->) | (Hq & ->)]];
    simpl.
  - rewrite Hq. split; [discriminate|]. intros Heq. destruct l1; discriminate.
  - destruct Hstale. apply Hinv.
    assert (p ∈ remove sid (waitingUsers st)) as [Hp _]%elem_of_remove; [|done].
    rewrite Hq, elem_of_app, elem_of_cons. by right; left.
  - done.
Qed.

Lemma waits_only_when_alone_witness :
  (start_matching "A1" (UserData "Ann" "US") (State [A] {[ "A1" ]})).2
    = [ Emit "A1" waiting_in_queue ]
  ↔ remove "A1" [A] = [].
Proof.
  apply (waits_only_when_alone "A1" (UserData "Ann" "US") (State [A] {[ "A1" ]})).
  intros u ->%list_elem_of_singleton. simpl. by apply elem_of_singleton.
Defined.

(** No handler of another socket makes a socket that does not wait part of
    a match, nor puts it in the queue. *)
Lemma step_no_match sid e st :
  asks_for_match sid e = false →
  sid ∉ id <$> waitingUsers st →
  (sid ∉ id <$> waitingUsers (step e st).1) ∧
  ∀ m, m ∈ (step e st).2 → ¬ matches sid m.
Proof.
  intros Hask Hout.
  destruct e as [sid'|sid' d|sid' d|sid' p|sid']; simpl in *.
  - split; [done|]. by intros m ?%elem_of_nil.
  - assert (sid' ≠ sid) as Hne.
    { apply strict_ne_true. unfold strict_ne. by rewrite Hask. }
    pose proof (not_elem_of_ids_sublist _ _ sid
                  (remove_sublist sid' (waitingUsers st)) Hout) as Hrem.
    destruct (start_matching_cases sid' d st)
      as [(l1 & p & l2 & Hq & _ & ->) | [(l1 & p & l2 & Hq & _ & ->) | (_ & ->)]];
      simpl; rewrite ?Hq in Hrem.
    + split.
      { eapply not_elem_of_ids_sublist, Hrem. apply sublist_drop_middle. }
      assert (id p ≠ sid) as Hp.
      { intros <-. apply Hrem. rewrite fmap_app, fmap_cons, elem_of_app, elem_of_cons.
        by right; left. }
      intros m. rewrite !elem_of_cons, elem_of_nil.
      intros [-> | [-> | []]] (other & u & r & [[=] | [=]]); congruence.
    + split.
      { rewrite fmap_app, elem_of_app. intros [Hin | Hin].
        - revert Hin. eapply not_elem_of_ids_sublist, Hrem. apply sublist_drop_middle.
        - simpl in Hin. apply list_elem_of_singleton in Hin. congruence. }
      intros m ->%list_elem_of_singleton (other & u & r & [[=] | [=]]).
    + split.
      { simpl. rewrite list_elem_of_singleton. congruence. }
      intros m ->%list_elem_of_singleton (other & u & r & [[=] | [=]]).
  - split; [done|].
    intros m ->%list_elem_of_singleton (other & u & r & [[=] | [=]]).
  - split.
    { eapply not_elem_of_ids_sublist, Hout. apply remove_sublist. }
    destruct p as [p|]; [destruct (truthy p)|];
      intros m Hm; try (by apply elem_of_nil in Hm).
    apply list_elem_of_singleton in Hm as ->.
    intros (other & u & r & [[=] | [=]]).
  - split.
    { eapply not_elem_of_ids_sublist, Hout. apply remove_sublist. }
    by intros m ?%elem_of_nil.
Qed.

(** A socket that is not in the queue is never matched, and never put in
    the queue, until it asks for a match itself: whatever the other
    sockets do, no [match-found] is sent to it or names it. *)
Theorem no_match_without_asking sid es st :
  sid ∉ id <$> waitingUsers st →
  Forall (λ e, asks_for_match sid e = false) es →
  (sid ∉ id <$> waitingUsers (run es st).1) ∧
  ∀ m, m ∈ (run es st).2 → ¬ matches sid m.
Proof.
  intros Hout Hes. revert st Hout.
  induction Hes as [|e es He _ IH]; intros st Hout; simpl.
  - split; [done|]. by intros m ?%elem_of_nil.
  - destruct (step_no_match sid e st He Hout) as [Hq Hm].
    destruct (step e st) as [st1 out1]. simpl in *.
    destruct (IH st1 Hq) as [Hq' Hm'].
    destruct (run es st1) as [st2 out2]. simpl in *.
    split; [done|]. intros m [Hin | Hin]%elem_of_app; eauto.
Qed.

Lemma no_match_without_asking_witness :
  ("C3" ∉ id <$> waitingUsers
     (run [ ev_start_matching "A1" (UserData "Ann" "US");
            ev_start_matching "B2" (UserData "Bob" "US") ]
        (State [] {[ "A1"; "B2"; "C3" ]})).1) ∧
  ∀ m, m ∈ (run [ ev_start_matching "A1" (UserData "Ann" "US");
                  ev_start_matching "B2" (UserData "Bob" "US") ]
              (State [] {[ "A1"; "B2"; "C3" ]})).2 → ¬ matches "C3" m.
Proof.
  apply (no_match_without_asking "C3").
  - simpl. apply not_elem_of_nil.
  - repeat constructor.
Defined.

End DisciplineFacts.

(** ** The page, one event at a time and over time *)

Module PageFacts.
Import Js Client Page Scenario.

Ltac page_unfold :=
  unfold exec, page_step, on_signal, on_ice, on_submit, on_submit_media,
    createOffer_end, createAnswer_end, send_description,
    on_match_found, on_waiting_in_queue, on_partner_dropped, on_hangup_click,
    on_iceconnectionstatechange, requeueForMatch, handleHangUp,
    clearConnectionState, createPeerConnection, createOffer, startLocalMediaView;
  unfold mbind, M_bind, get, tell, when, set_partnerId, set_peerConnection,
    set_localStream, set_localUserData;
  cbn -[truthy strict_eq isInitiator];
  unfold mret, M_ret.

Ltac split_ifs :=
  repeat match goal with
  | |- context [if ?b then _ else _] =>
      destruct b eqn:?; cbn -[truthy strict_eq isInitiator]
  end.

(** Running one handler after another. *)
Lemma exec_page_run_cons e es c :
  exec (page_run (e :: es)) c =
    let '(c1, out1) := exec (page_step e) c in
    let '(c2, out2) := exec (page_run es) c1 in
    (c2, out1 ++ out2).
Proof.
  unfold exec. simpl. unfold mbind, M_bind.
  destruct (page_step e c) as [[[] c1] out1].
  by destruct (page_run es c1) as [[[] c2] out2].
Qed.

Lemma opened_app out1 out2 : opened (out1 ++ out2) = (opened out1 + opened out2)%nat.
Proof. unfold opened. by rewrite List.filter_app, length_app. Qed.

Lemma closed_app out1 out2 : closed (out1 ++ out2) = (closed out1 + closed out2)%nat.
Proof. unfold closed. by rewrite List.filter_app, length_app. Qed.

(** Each handler closes the peer connection it replaces or gives up. *)
Lemma page_step_balanced e c :
  (opened (exec (page_step e) c).2 + held c
   = closed (exec (page_step e) c).2 + held (exec (page_step e) c).1)%nat.
Proof.
  destruct c as [sid ls pc pid [u r]].
  destruct e, ls, pc as [k|], pid as [p|]; page_unfold; split_ifs; reflexivity.
Qed.

Lemma page_step_partner e c :
  (is_Some (partnerId c) → is_Some (peerConnection c)) →
  is_Some (partnerId (exec (page_step e) c).1) →
  is_Some (peerConnection (exec (page_step e) c).1).
Proof.
  destruct c as [sid ls pc pid [u r]].
  destruct e, ls, pc as [k|], pid as [p|]; page_unfold; split_ifs;
    intros Hinv Hp;
    first [ exact (ex_intro _ _ eq_refl) | exact (Hinv Hp)
          | exact (Hinv (ex_intro _ _ eq_refl)) | by destruct Hp as [? [=]] ].
Qed.

(** Whatever happens to a page, it has created exactly as many peer
    connections as it has closed and holds: it never holds two at a time
    and never gives one up without closing it. *)
Theorem page_connections_balanced es c :
  let '(c', out) := exec (page_run es) c in
  (opened out + held c = closed out + held c')%nat.
Proof.
  revert c. induction es as [|e es IH]; intros c; [done|].
  rewrite exec_page_run_cons.
  pose proof (page_step_balanced e c) as Hstep.
  destruct (exec (page_step e) c) as [c1 out1]. specialize (IH c1).
  destruct (exec (page_run es) c1) as [c2 out2].
  rewrite opened_app, closed_app. simpl in Hstep. lia.
Qed.

(** A page that has a partner has a peer connection, whatever happened to
    it since it was loaded. *)
Theorem page_partner_has_connection es sid :
  let c := (exec (page_run es) (init sid)).1 in
  is_Some (partnerId c) → is_Some (peerConnection c).
Proof.
  assert (∀ c, (is_Some (partnerId c) → is_Some (peerConnection c)) →
            is_Some (partnerId (exec (page_run es) c).1) →
            is_Some (peerConnection (exec (page_run es) c).1)) as Hrun.
  { induction es as [|e es IH]; intros c Hinv; [done|].
    rewrite exec_page_run_cons.
    pose proof (page_step_partner e c Hinv) as Hstep.
    destruct (exec (page_step e) c) as [c1 out1]. specialize (IH c1 Hstep).
    by destruct (exec (page_run es) c1) as [c2 out2]. }
  apply Hrun. by intros [? [=]].
Qed.

Lemma page_partner_has_connection_witness :
  is_Some (peerConnection
    (exec (page_run [ pe_submit "Ann" "US"; pe_submit_media true;
                      pe_match_found "B2" "Bob" "US" ]) (init "A1")).1).
Proof.
  apply (page_partner_has_connection
           [ pe_submit "Ann" "US"; pe_submit_media true;
             pe_match_found "B2" "Bob" "US" ] "A1").
  eexists. reflexivity.
Defined.

(** [clearConnectionState] forgets the partner and the peer connection and
    nothing else, closes the peer connection if there is one, sends
    nothing; run again it changes nothing and closes nothing. *)
Theorem clearConnectionState_tears_down c :
  let '(c1, out1) := exec clearConnectionState c in
  let '(c2, out2) := exec clearConnectionState c1 in
  c1 = Client (socket_id c) (localStream c) None None (localUserData c) ∧
  emitted out1 = [] ∧ closed out1 = held c ∧ opened out1 = 0%nat ∧
  c2 = c1 ∧ emitted out2 = [] ∧ closed out2 = 0%nat.
Proof.
  destruct c as [sid ls pc pid ud]. by destruct pc as [k|]; page_unfold.
Qed.

(** A click on the hang-up button, with the display attributes supplied:
    the partner, if there is one, is told first, then the page asks for a
    new match with the attributes it holds; it forgets the partner and the
    peer connection and keeps the camera. *)
Theorem hangup_click_notifies_then_rejoins c :
  attrs_supplied c →
  let '(c', out) := exec on_hangup_click c in
  c' = Client (socket_id c) (localStream c) None None (localUserData c) ∧
  emitted out =
    (if truthy_opt (partnerId c) then [user_hangup (partnerId c)] else [])
    ++ [start_matching (localUserData c)] ∧
  closed out = held c.
Proof.
  destruct c as [sid ls pc pid ud]. intros [Hu Hr]. simpl in *.
  assert (∃ b, truthy_opt pid = b) as [b Hb] by by eexists.
  destruct ls, pc as [k|], pid as [p|]; simpl in Hb; page_unfold;
    rewrite ?Hb; destruct b; cbn -[truthy]; rewrite Hu, Hr; done.
Qed.

Lemma hangup_click_notifies_then_rejoins_witness :
  let '(c', out) := exec on_hangup_click ann_in_call in
  c' = Client "A1" true None None (Server.UserData "Ann" "US") ∧
  emitted out = [user_hangup (Some "B2"); start_matching (Server.UserData "Ann" "US")] ∧
  closed out = 1%nat.
Proof.
  apply (hangup_click_notifies_then_rejoins ann_in_call). split; reflexivity.
Defined.

(** A change of the ICE state to [disconnected] or [failed] is handled as a
    click on the hang-up button; any other state is ignored. *)
Theorem ice_failure_is_a_hangup state c :
  is_Some (peerConnection c) →
  exec (on_ice state) c =
    if strict_eq state "disconnected" || strict_eq state "failed"
    then exec on_hangup_click c
    else (c, []).
Proof.
  destruct c as [sid ls pc pid ud]. intros [k Hk]. simpl in Hk. subst pc.
  unfold on_ice, on_iceconnectionstatechange, exec.
  unfold mbind at 1. unfold M_bind at 1. unfold get at 1. cbn [peerConnection].
  rewrite bool_decide_true by by eexists. unfold when at 1.
  destruct (strict_eq state "disconnected" || strict_eq state "failed");
    unfold when; [|done].
  unfold on_hangup_click.
  by destruct (_ ≫= _) as [[[] c'] out].
Qed.

Lemma ice_failure_is_a_hangup_witness :
  exec (on_ice "failed") ann_in_call = exec on_hangup_click ann_in_call ∧
  exec (on_ice "connected") ann_in_call = (ann_in_call, []).
Proof.
  assert (is_Some (peerConnection ann_in_call)) as H by (eexists; reflexivity).
  split.
  - exact (ice_failure_is_a_hangup "failed" ann_in_call H).
  - exact (ice_failure_is_a_hangup "connected" ann_in_call H).
Defined.

(** Without display attributes a requeue falls back to the lobby: nothing
    is sent to the server, the partner and the peer connection are
    forgotten, the lobby is shown again, and the camera is released, its
    tracks being stopped exactly when it was on. *)
Theorem requeue_without_attributes c :
  truthy (username (localUserData c)) && truthy (country (localUserData c)) = false →
  let '(c', out) := exec on_partner_dropped c in
  c' = Client (socket_id c) false None None (localUserData c) ∧
  emitted out = [] ∧
  classList_remove lobbyView "hidden" ∈ out ∧
  (tracks_stop ∈ out ↔ localStream c = true).
Proof.
  destruct c as [sid ls pc pid ud]. intros Hno. simpl in *.
  destruct ls, pc as [k|]; page_unfold; rewrite Hno; cbn;
    (repeat split; try done); rewrite ?elem_of_cons, ?elem_of_nil;
    intuition congruence.
Qed.

Lemma requeue_without_attributes_witness :
  let '(c', out) :=
    exec on_partner_dropped
      (Client "A1" true (Some (PeerConnection true)) (Some "B2") (Server.UserData "Ann" ""))
  in
  c' = Client "A1" false None None (Server.UserData "Ann" "") ∧
  emitted out = [] ∧
  classList_remove lobbyView "hidden" ∈ out ∧
  (tracks_stop ∈ out ↔ true = true).
Proof.
  apply (requeue_without_attributes
           (Client "A1" true (Some (PeerConnection true)) (Some "B2")
              (Server.UserData "Ann" ""))).
  reflexivity.
Defined.

(** From the form to the requeue: a user who submits a name and a region
    and gets the camera is put in the queue with them, and when a partner
    found later drops, the page asks again with the same name and region;
    nothing else is sent to the server, and the camera stays on. *)
Theorem submitted_attributes_are_resent c name region p u r :
  truthy name = true → truthy region = true →
  let '(c', out) :=
    exec (page_run [ pe_submit name region; pe_submit_media true;
                     pe_match_found p u r; pe_partner_dropped ]) c in
  emitted out = [ start_matching (Server.UserData name region);
                  start_matching (Server.UserData name region) ] ∧
  c' = Client (socket_id c) true None None (Server.UserData name region).
Proof.
  destruct c as [sid ls pc pid ud]. intros Hn Hr.
  unfold page_run.
  destruct ls, pc as [k|]; page_unfold; rewrite !Hn, !Hr;
    cbn -[truthy strict_eq isInitiator];
    destruct (isInitiator sid p); cbn -[truthy strict_eq isInitiator];
    rewrite ?Hn, ?Hr; done.
Qed.

Lemma submitted_attributes_are_resent_witness :
  let '(c', out) :=
    exec (page_run [ pe_submit "Ann" "US"; pe_submit_media true;
                     pe_match_found "B2" "Bob" "US"; pe_partner_dropped ])
      (init "A1") in
  emitted out = [ start_matching (Server.UserData "Ann" "US");
                  start_matching (Server.UserData "Ann" "US") ] ∧
  c' = Client "A1" true None None (Server.UserData "Ann" "US").
Proof.
  apply (submitted_attributes_are_resent (init "A1") "Ann" "US" "B2" "Bob" "US");
    reflexivity.
Defined.

(** An offer that reaches a page without peer connection is not lost: the
    page creates the peer connection as responder, with its local tracks if
    the camera is on and without making an offer of its own, and goes on to
    answer; it sends nothing yet and keeps its partner as it is. *)
Theorem premature_offer_gets_answered c offer :
  peerConnection c = None →
  on_signal "sdp-offer" offer c =
    (await_createAnswer offer,
     Client (socket_id c) (localStream c) (Some (PeerConnection (localStream c)))
       (partnerId c) (localUserData c),
     pc_new :: (if localStream c then [pc_addTracks] else [])).
Proof.
  destruct c as [sid ls pc pid ud]. simpl. intros ->.
  by destruct ls.
Qed.

Lemma premature_offer_gets_answered_witness :
  on_signal "sdp-offer" "v=0" (Client "B2" true None (Some "A1") (Server.UserData "Bob" "US")) =
    (await_createAnswer "v=0",
     Client "B2" true (Some (PeerConnection true)) (Some "A1") (Server.UserData "Bob" "US"),
     [pc_new; pc_addTracks]).
Proof.
  exact (premature_offer_gets_answered
           (Client "B2" true None (Some "A1") (Server.UserData "Bob" "US")) "v=0" eq_refl).
Defined.

(** Any other signal that reaches a page without peer connection is
    skipped: the page is left as it is and nothing is done. With a peer
    connection a signal never changes the globals of the page either. *)
Theorem signal_without_connection_skipped c type payload :
  (peerConnection c = None → type ≠ "sdp-offer" →
   on_signal type payload c = (skipped, c, [])) ∧
  (is_Some (peerConnection c) →
   (on_signal type payload c).1.2 = c ∧ (on_signal type payload c).2 = []).
Proof.
  destruct c as [sid ls pc pid ud]. simpl. split.
  - intros -> Hne. unfold on_signal.
    unfold mbind, M_bind, get, when. cbn -[strict_eq].
    destruct (strict_eq type "sdp-offer") eqn:Heq; [|done].
    by apply String.eqb_eq in Heq.
  - intros [k ->]. unfold on_signal.
    unfold mbind, M_bind, get, when. cbn -[strict_eq truthy].
    by repeat (destruct (strict_eq _ _) || destruct (truthy _)).
Qed.

Lemma signal_without_connection_skipped_witness :
  on_signal "ice-candidate" "candidate:1" (init "B2") = (skipped, init "B2", []) ∧
  (on_signal "sdp-answer" "v=0" ann_in_call).1.2 = ann_in_call.
Proof.
  split.
  - apply (proj1 (signal_without_connection_skipped (init "B2") "ice-candidate" "candidate:1"));
      [reflexivity | discriminate].
  - apply (proj2 (signal_without_connection_skipped ann_in_call "sdp-answer" "v=0")).
    eexists. reflexivity.
Defined.

End PageFacts.

(** ** Leaving and disconnecting, across the server and the pages *)

Module LeaveFacts.
Import Js Server World Scenario.





(** A disconnect is silent. The socket leaves the connected sockets and the
    queue, nothing is sent, and every page is left as it is: a partner of
    the socket keeps the session record that names it. *)
Theorem disconnect_notifies_nobody (w : world) a :
  let w' := World.step (ev_disconnect a) w in
  (Server.step (ev_disconnect a) (server w)).2 = [] ∧
  clients w' = clients w ∧
  (∀ b, session w' b a ↔ session w b a) ∧
  (a ∉ sockets (server w')) ∧
  (a ∉ id <$> waitingUsers (server w')).
Proof.
  simpl. repeat split; try done.
  - intros [_ Hn]%elem_of_difference. apply Hn. by apply elem_of_singleton.
  - apply QueueFacts.not_elem_of_ids_remove.
Qed.

End LeaveFacts.
